(** * prograde: mark extraction and aggregation

    A shallow embedding of [src/prograde/__main__.py]: the mark-block parser
    ([get_nb_marks]), the notebook locator ([get_proj_marks]), the schema
    assertion and the aggregation loop of [get_marks], the membership check
    ([check_config], [member_logins]), the merge export ([export_marks]), the
    project column ([with_project_list]), [get_member2project], the command
    trace of [pull_repos] and the dispatch of [main].

    Modelling conventions.
    - Text is a [string] whose characters are read as the code points 0 to
      255.  The classes [\s] and [\w] and the line boundaries of
      [str.splitlines] are Python's on that range.
    - A float is the rational number it denotes, in lowest terms, every
      operation rounding to binary64 ([b64_round]: to nearest, ties to even,
      with subnormals and overflow); plus and minus infinity are the rationals
      [2^1024] and [-2^1024], which no finite binary64 reaches, and a NaN is an
      absent value.  The two zeros are not told apart.
    - A function that can raise returns a [result]; [None] is [Ret None].
    - A dict is a [gmap]; a pandas table is a set of column labels together
      with rows indexed by label, a missing cell standing for NaN.  The order
      of rows and columns (which only shapes the written CSV) is not kept.
    - What the source obtains from its libraries and from the file system (the
      roster of [get_class_list], the notebooks a [glob] enumerates, the
      external gradebook and [DataFrame.merge]) is an argument of the model. *)

From Stdlib Require Import QArith Qreduction Ascii String.
From stdpp Require Import gmap strings list.


(** ** Exceptions and results *)

Inductive exn : Type :=
| ValueError (msg : string)
| RuntimeError (msg : string)
| AssertionError
| KeyError
| TypeError
| OverflowError.

Inductive result (A : Type) : Type :=
| Ret (a : A)
| Raise (e : exn).
Arguments Ret {A} a.
Arguments Raise {A} e.

#[export] Instance result_ret : MRet result := @Ret.

#[export] Instance result_bind : MBind result := λ A B k r,
  match r with
  | Ret a => k a
  | Raise e => Raise e
  end.

Definition raises {A : Type} (r : result A) : Prop := ∃ e, r = Raise e.

Definition is_raise {A : Type} (r : result A) : bool :=
  match r with Raise _ => true | Ret _ => false end.

(** ** Characters and the classes of the pattern *)

Definition code (c : ascii) : N := N_of_ascii c.

Definition in_range (lo hi : N) (c : ascii) : bool :=
  ((lo <=? code c) && (code c <=? hi))%N.

(** [[0-9]] *)
Definition is_digit (c : ascii) : bool := in_range 48 57 c.

(** [\s] on a [str] pattern, code points below 256: TAB, LF, VT, FF, CR, FS,
    GS, RS, US, the space, NEL (U+0085) and the no-break space (U+00A0). *)
Definition is_space (c : ascii) : bool :=
  in_range 9 13 c || in_range 28 32 c || (code c =? 133)%N || (code c =? 160)%N.

(** [\w] on a [str] pattern, code points below 256: the underscore and what
    [str.isalnum] accepts, that is the ASCII letters and digits, the ordinal
    indicators (U+00AA, U+00BA), the micro sign (U+00B5), the superscript
    digits (U+00B2, U+00B3, U+00B9), the vulgar fractions (U+00BC to U+00BE)
    and the Latin-1 letters (U+00C0 to U+00FF but the signs U+00D7, U+00F7). *)
Definition is_word (c : ascii) : bool :=
  is_digit c || in_range 65 90 c || in_range 97 122 c || (code c =? 95)%N
  || (code c =? 170)%N || in_range 178 179 c || (code c =? 181)%N
  || in_range 185 186 c || in_range 188 190 c
  || in_range 192 214 c || in_range 216 246 c || in_range 248 255 c.

(** [[0-9.]] *)
Definition is_numch (c : ascii) : bool := is_digit c || (code c =? 46)%N.

(** The boundaries [str.splitlines] cuts at, code points below 256: LF, VT,
    FF, CR, FS, GS, RS and NEL (U+0085). *)
Definition is_linebreak (c : ascii) : bool :=
  in_range 10 13 c || in_range 28 30 c || (code c =? 133)%N.

Definition LF : ascii := "010"%char.
Definition CR : ascii := "013"%char.

Fixpoint all_chars (cls : ascii → bool) (s : string) : bool :=
  match s with
  | EmptyString => true
  | String c s' => cls c && all_chars cls s'
  end.

Fixpoint filter_chars (cls : ascii → bool) (s : string) : string :=
  match s with
  | EmptyString => EmptyString
  | String c s' => if cls c then String c (filter_chars cls s') else filter_chars cls s'
  end.

(** ** A backtracking matcher for the constructs the pattern uses

    Each combinator takes the text still to match and a continuation for the
    rest of the pattern; [star] is greedy and gives characters back one at a
    time when the continuation fails, as [re] does. *)

Module Re.
Section Combinators.
Context {A : Type}.

Definition lit (c : ascii) (s : string) (k : string → option A) : option A :=
  match s with
  | String c' s' => if Ascii.eqb c c' then k s' else None
  | EmptyString => None
  end.

Fixpoint star (cls : ascii → bool) (s : string)
    (k : string → string → option A) : option A :=
  match s with
  | String c s' =>
      if cls c then
        match star cls s' (λ m r, k (String c m) r) with
        | Some a => Some a
        | None => k EmptyString s
        end
      else k EmptyString s
  | EmptyString => k EmptyString s
  end.

Definition plus (cls : ascii → bool) (s : string)
    (k : string → string → option A) : option A :=
  match s with
  | String c s' => if cls c then star cls s' (λ m r, k (String c m) r) else None
  | EmptyString => None
  end.
End Combinators.

(** [$] without MULTILINE: the end of the text, or just before a final LF. *)
Definition at_end (s : string) : bool :=
  String.eqb s EmptyString || String.eqb s (String LF EmptyString).
End Re.

(** [re.match] of the line against the pattern of the source, followed by
    [m.groups()].  The pattern, element by element:
    [\*  \s*  ( \w* )  \s*  :  \s*  ( [0-9.]+ )  \s*  $]. *)
Definition mark_line_match (L : string) : option (string * string) :=
  Re.lit "*" L (λ r0,
  Re.star is_space r0 (λ _ r1,
  Re.star is_word r1 (λ k r2,
  Re.star is_space r2 (λ _ r3,
  Re.lit ":" r3 (λ r4,
  Re.star is_space r4 (λ _ r5,
  Re.plus is_numch r5 (λ v r6,
  Re.star is_space r6 (λ _ r7,
  if Re.at_end r7 then Some (k, v) else None)))))))).

(** ** Binary64 arithmetic *)

(** The integer nearest to [a / b] ([b] positive), a tie going to the even one. *)
Definition rne (a b : Z) : Z :=
  let f := (a / b)%Z in
  let r := (a mod b)%Z in
  if (2 * r <? b)%Z then f
  else if (b <? 2 * r)%Z then (f + 1)%Z
  else if Z.even f then f else (f + 1)%Z.

Definition b64_inf : Q := inject_Z (2 ^ 1024).
Definition is_pinf (x : Q) : bool := Qle_bool b64_inf x.
Definition is_ninf (x : Q) : bool := Qle_bool x (- b64_inf).

(** [2^e ≤ a / b], for positive [a] and [b]. *)
Definition pow2_le (e a b : Z) : bool :=
  (b * 2 ^ Z.max 0 e <=? a * 2 ^ Z.max 0 (- e))%Z.

(** The [e] with [2^e ≤ a / b < 2^(e+1)], for positive [a] and [b]. *)
Definition ilog2 (a b : Z) : Z :=
  let e := (Z.log2 a - Z.log2 b)%Z in
  if pow2_le e a b then e else (e - 1)%Z.

(** The binary64 nearest to the rational [q]: 53 significant bits, the
    exponent not below -1022 (subnormals), ties to even, and an infinity
    when the rounded magnitude reaches [2^1024]. *)
Definition b64_round (q : Q) : Q :=
  let a := Z.abs (Qnum q) in
  let b := Z.pos (Qden q) in
  if (a =? 0)%Z then 0%Q
  else
    let e := Z.max (ilog2 a b) (-1022) in
    let t := (e - 52)%Z in
    let n := rne (a * 2 ^ Z.max 0 (- t)) (b * 2 ^ Z.max 0 t) in
    let m := Qred (inject_Z n * (inject_Z (2 ^ Z.max 0 t) / inject_Z (2 ^ Z.max 0 (- t)))) in
    let m := if is_pinf m then b64_inf else m in
    if (Qnum q <? 0)%Z then Qopp m else m.

(** [x + y] on floats; the sum of the two infinities is a NaN. *)
Definition fadd (x y : Q) : option Q :=
  if is_pinf x then (if is_ninf y then None else Some b64_inf)
  else if is_ninf x then (if is_pinf y then None else Some (- b64_inf)%Q)
  else if is_pinf y then Some b64_inf
  else if is_ninf y then Some (- b64_inf)%Q
  else Some (b64_round (x + y)).

(** [x / n] on floats, for a positive count [n]. *)
Definition fdiv (x : Q) (n : nat) : Q :=
  if is_pinf x || is_ninf x then x else b64_round (x / inject_Z (Z.of_nat n)).

(** The floats of a list added from left to right. *)
Definition fsum (ys : list Q) : option Q :=
  match ys with
  | [] => Some 0%Q
  | y :: ys' => foldl (λ acc y', acc ≫= λ s, fadd s y') (Some y) ys'
  end.

(** ** [float] on the tokens the second group can capture

    On a text of digits and dots Python's [float] accepts [d+], [d+.], [.d+]
    and [d+.d+] and raises [ValueError] otherwise.  (It accepts more on other
    texts: signs, exponents, [inf], [nan], underscores, surrounding blanks;
    no such text reaches it from the pattern.) *)

Definition digit_val (c : ascii) : Z := Z.of_N (code c) - 48.

Fixpoint digits_val (acc : Z) (s : string) : Z :=
  match s with
  | EmptyString => acc
  | String c s' => digits_val (10 * acc + digit_val c) s'
  end.

(** The text before the first occurrence of [sep], and what follows that
    occurrence ([None] when [sep] does not occur). *)
Fixpoint str_partition (sep : ascii) (s : string) : string * option string :=
  match s with
  | EmptyString => (EmptyString, None)
  | String c s' =>
      if Ascii.eqb c sep then (EmptyString, Some s')
      else let '(a, b) := str_partition sep s' in (String c a, b)
  end.

Definition float_wf (tok : string) : bool :=
  let '(ip, fp) := str_partition "." tok in
  let fp := default EmptyString fp in
  all_chars is_digit ip && all_chars is_digit fp
  && negb (String.eqb (ip +:+ fp) EmptyString).

(** The number the decimal token denotes. *)
Definition decimal_value (tok : string) : Q :=
  let '(ip, fp) := str_partition "." tok in
  let fp := default EmptyString fp in
  inject_Z (digits_val 0 (ip +:+ fp)) / inject_Z (10 ^ Z.of_nat (String.length fp)).

(** [float] rounds it correctly. *)
Definition float_value (tok : string) : Q := b64_round (decimal_value tok).

Definition float_ (tok : string) : result Q :=
  if float_wf tok then Ret (float_value tok)
  else Raise (ValueError ("could not convert string to float: '" +:+ tok +:+ "'")).

(** ** [str.splitlines] *)

(** [cur] is the line being read; [after_cr] tells that the previous character
    was a CR, so that a LF now belongs to the same boundary. *)
Fixpoint splitlines_go (after_cr : bool) (cur : string) (s : string) : list string :=
  match s with
  | EmptyString => if String.eqb cur EmptyString then [] else [cur]
  | String c s' =>
      if after_cr && Ascii.eqb c LF then splitlines_go false cur s'
      else if is_linebreak c then cur :: splitlines_go (Ascii.eqb c CR) EmptyString s'
      else splitlines_go false (cur +:+ String c EmptyString) s'
  end.

Definition splitlines (s : string) : list string := splitlines_go false EmptyString s.

(** ** The mark-block parser: [get_nb_marks] *)

Record cell : Type := { cell_type : string; source : string }.

(** What [nbf.read] returns, as far as the parser looks at it. *)
Record notebook : Type := { cells : list cell }.

(** The body of [for L in ...]: a matching line stores [float(v)] under [k]. *)
Definition scan_line (marks : gmap string Q) (L : string) : result (gmap string Q) :=
  match mark_line_match L with
  | Some (k, v) => x ← float_ v; Ret (<[k := x]> marks)
  | None => Ret marks
  end.

Fixpoint scan_lines (marks : gmap string Q) (ls : list string) : result (gmap string Q) :=
  match ls with
  | [] => Ret marks
  | L :: ls' => marks' ← scan_line marks L; scan_lines marks' ls'
  end.

Definition get_nb_marks (nb : notebook) : result (option (gmap string Q)) :=
  match last (cells nb) with
  | None => Ret None
  | Some last_cell =>
      if negb (String.eqb (cell_type last_cell) "markdown") then Ret None
      else
        let last_lines := splitlines (source last_cell) in
        if (length last_lines <? 2)%nat then Ret None
        else
          match last_lines with
          | [] => Ret None
          | first :: last_lines =>
              if negb (String.eqb first "## Marks") then Ret None
              else marks ← scan_lines ∅ (drop 1 last_lines); Ret (Some marks)
          end
  end.

(** ** The notebook locator: [get_proj_marks]

    [nb_paths] stands for what [path.glob] enumerates, in that order, each
    path already read.  An empty dict is falsy, so the loop goes on after it;
    falling off the loop returns [None]. *)

Fixpoint get_proj_marks (nb_paths : list notebook) : result (option (gmap string Q)) :=
  match nb_paths with
  | [] => Ret None
  | nb_path :: nb_paths' =>
      marks ← get_nb_marks nb_path;
      match marks with
      | Some marks =>
          if bool_decide (marks ≠ ∅) then Ret (Some marks) else get_proj_marks nb_paths'
      | None => get_proj_marks nb_paths'
      end
  end.

(** ** Tables *)

(** What a cell holds: a text, a number of the configuration (an [int] or a
    finite [float] of the YAML document), or a float computed by the run. *)
Inductive value : Type :=
| VStr (s : string)
| VNum (q : Q)
| VFloat (x : Q).

(** A [DataFrame] with a unique index: the column labels, and for each index
    label the cells of its row; a label of [columns] without a cell in a row
    is a NaN there. *)
Record DataFrame : Type := {
  columns : gset string;
  rows : gmap string (gmap string value)
}.

Definition df_cell (df : DataFrame) (i c : string) : option value :=
  rows df !! i ≫= λ row, row !! c.

(** [df.loc[i, list(marks)] = marks]: the cells are aligned on the keys of
    [marks]; labels that are not yet columns are added, and so is the row
    when [i] is not in the index (setting with enlargement). *)
Definition loc_set (i : string) (marks : gmap string value) (df : DataFrame) : DataFrame :=
  {| columns := columns df ∪ dom marks;
     rows := <[i := marks ∪ default ∅ (rows df !! i)]> (rows df) |}.

(** ** Configuration *)

(** A project of the configuration: [members] maps a member string to a
    contribution score, [presentation] is a number. *)
Record project : Type := {
  members : list (string * value);
  presentation : Q
}.

Record export_config : Type := {
  merge_col : option string;
  col_map : option (list (string * string));
  fname : option string
}.

(** The keys the modelled functions read; an absent [projects] reads as the
    empty mapping, as [config.get('projects', {})] does. *)
Record config : Type := {
  projects : list (string * project);
  marks_col : option string;
  round_final : bool;
  canvas_export_path : option string;
  export : option export_config
}.

Definition with_projects (ps : list (string * project)) (cfg : config) : config :=
  {| projects := ps; marks_col := marks_col cfg; round_final := round_final cfg;
     canvas_export_path := canvas_export_path cfg; export := export cfg |}.

Definition MARK_CATEGORIES : list string :=
  ["Questions"; "Analysis"; "Results"; "Readability"; "Writing"; "Reproducibility"].

(** ** Membership check: [member_logins], [check_config] *)

(** [m.split('@')[0]] *)
Definition login (m : string) : string := (str_partition "@" m).1.

Definition contains_char (c : ascii) (s : string) : bool :=
  negb (all_chars (λ c', negb (Ascii.eqb c' c)) s).

Definition member_logins (pconfig : project) : gset string :=
  list_to_set (login <$> (members pconfig).*1).

(** The loop of [check_config]; the order in which a set is joined into the
    message is the set's iteration order, which Python does not fix either. *)
Fixpoint check_projects (known_students all_members : gset string)
    (ps : list (string * project)) : result (gset string) :=
  match ps with
  | [] => Ret all_members
  | (name, pconfig) :: ps' =>
      let members := member_logins pconfig in
      let unknown := members ∖ known_students in
      if negb (size unknown =? 0)%nat then
        Raise (ValueError ("Unknown students " +:+ String.concat ", " (elements unknown)
                           +:+ " in " +:+ name))
      else if negb (size (all_members ∩ members) =? 0)%nat then
        Raise (ValueError ("Students in " +:+ name +:+ " overlap with other project"))
      else check_projects known_students (all_members ∪ members) ps'
  end.

(** [check_config] returns nothing; the model returns the set [missing] it
    prints (and writes to [missing.csv]). *)
Definition check_config (class_list : DataFrame) (cfg : config) : result (gset string) :=
  let known_students := dom (rows class_list) in
  all_members ← check_projects known_students ∅ (projects cfg);
  Ret (known_students ∖ all_members).

(** ** Aggregation: [get_marks] *)

(** The inner loop over [pconfig['members'].items()]. *)
Definition write_members (marks : gmap string value) (ms : list (string * value))
    (class_list : DataFrame) : DataFrame :=
  foldl (λ cl '(member, contrib_score),
           loc_set member (<["Contribution" := contrib_score]> marks) cl)
        class_list ms.

(** [set(proj_marks) == set(MARK_CATEGORIES)] *)
Definition valid_marks (proj_marks : gmap string Q) : bool :=
  bool_decide (dom proj_marks = list_to_set MARK_CATEGORIES).

(** One turn of the loop over the projects.  [fs name] is the list of
    notebooks found under [project_root / name]. *)
Definition project_step (fs : string → list notebook) (allow_missing : bool)
    (class_list : DataFrame) (name : string) (pconfig : project) : result DataFrame :=
  let marks : gmap string value :=
    <["Presentation" := VNum (presentation pconfig)]> (<["Project name" := VStr name]> ∅) in
  proj_marks ← get_proj_marks (fs name);
  match proj_marks with
  | None =>
      let msg := "Missing project marks for " +:+ name in
      if negb allow_missing then Raise (RuntimeError msg) else Ret class_list
  | Some proj_marks =>
      if negb (valid_marks proj_marks) then Raise AssertionError
      else
        let marks := (VFloat <$> proj_marks) ∪ marks in
        Ret (write_members marks (members pconfig) class_list)
  end.

Fixpoint process_projects (fs : string → list notebook) (allow_missing : bool)
    (ps : list (string * project)) (class_list : DataFrame) : result DataFrame :=
  match ps with
  | [] => Ret class_list
  | (name, pconfig) :: ps' =>
      class_list' ← project_step fs allow_missing class_list name pconfig;
      process_projects fs allow_missing ps' class_list'
  end.

(** [('Presentation',) + MARK_CATEGORIES] *)
Definition mean_cols : list string := "Presentation" :: MARK_CATEGORIES.

(** [astype(float)] on one cell.  A number of the configuration is converted
    to the nearest float, an [int] beyond the range being an [OverflowError];
    a text cell goes through [float_], which follows Python on texts of digits
    and dots. *)
Definition astype_float (v : option value) : result (option Q) :=
  match v with
  | None => Ret None
  | Some (VFloat x) => Ret (Some x)
  | Some (VNum q) =>
      let x := b64_round q in
      if is_pinf x || is_ninf x then Raise OverflowError else Ret (Some x)
  | Some (VStr s) => x ← float_ s; Ret (Some x)
  end.

(** [mean] with the default [skipna=True]: the sum of the cells that are not
    NaN over their count, and NaN when there is none. *)
Definition nanmean (xs : list (option Q)) : option Q :=
  match omap id xs with
  | [] => None
  | ys => s ← fsum ys; Some (fdiv s (length ys))
  end.

Definition row_mean (row : gmap string value) : result (option Q) :=
  xs ← mapM (λ c, astype_float (row !! c)) mean_cols; Ret (nanmean xs).

(** [round()] on a float column: to the nearest whole number, a tie going to
    the even one; an infinity stays. *)
Definition round_half_even (q : Q) : Q :=
  if is_pinf q || is_ninf q then q else inject_Z (rne (Qnum q) (Z.pos (Qden q))).

(** [df[c] = series], one row at a time. *)
Definition set_cell (c : string) (v : option Q) (row : gmap string value) : gmap string value :=
  match v with
  | Some x => <[c := VFloat x]> row
  | None => delete c row
  end.

Definition final_score (round : bool) (row : gmap string value) : option Q :=
  match row_mean row with
  | Ret m => (if round then round_half_even else id) <$> m
  | Raise _ => None
  end.

(** The errors of the cells [astype] cannot convert, column by column (within
    a column, in the order the model enumerates the rows). *)
Definition astype_errors (rws : gmap string (gmap string value)) : list exn :=
  c ← mean_cols;
  row ← (map_to_list rws).*2;
  match astype_float (row !! c) with
  | Raise e => [e]
  | Ret _ => []
  end.

(** [get_marks], the roster [get_class_list(config)] being the argument
    [class_list].  Selecting a label that is not a column is a [KeyError];
    a cell [astype] cannot convert raises its error. *)
Definition get_marks (class_list : DataFrame) (fs : string → list notebook)
    (cfg : config) (allow_missing : bool) : result DataFrame :=
  let proj_col := default "Project %" (marks_col cfg) in
  class_list ← process_projects fs allow_missing (projects cfg) class_list;
  if negb (bool_decide (list_to_set mean_cols ⊆ columns class_list)) then Raise KeyError
  else
    match astype_errors (rows class_list) with
    | e :: _ => Raise e
    | [] =>
        Ret {| columns := columns class_list ∪ {[proj_col]};
               rows := (λ row, set_cell proj_col (final_score (round_final cfg) row) row)
                         <$> rows class_list |}
    end.

(** ** Merge export: [export_marks] *)

Definition dquote : ascii := "034"%char.

Definition rename_label (col_map : list (string * string)) (c : string) : string :=
  default c ((list_to_map col_map : gmap string string) !! c).

Section MergeExport.
(** The external gradebook reader and the table join are library code. *)
Variable to_minimal_df : string → DataFrame.
Variable merge : DataFrame → DataFrame → string → result DataFrame.

(** [df[labels]]: every label has to be a column. *)
Definition select_columns (labels : list string) (df : DataFrame) : result DataFrame :=
  if bool_decide (list_to_set labels ⊆ columns df) then
    Ret {| columns := list_to_set labels;
           rows := (λ row : gmap string value,
                      filter (λ kv, kv.1 ∈ labels) row) <$> rows df |}
  else Raise KeyError.

Definition rename_columns (col_map : list (string * string)) (df : DataFrame) : DataFrame :=
  {| columns := set_map (rename_label col_map) (columns df);
     rows := (λ row : gmap string value,
                kmap (M2 := gmap string) (rename_label col_map) row) <$> rows df |}.

(** The model returns the table that is written to the export file.
    [list(None)] is a [TypeError]; [None] is never a column label, so
    selecting it is a [KeyError]. *)
Definition export_marks (class_list : DataFrame) (fs : string → list notebook)
    (cfg : config) (allow_missing : bool) : result DataFrame :=
  mark_df ← get_marks class_list fs cfg allow_missing;
  match canvas_export_path cfg with
  | None | Some EmptyString =>
      Raise (RuntimeError ("Set " +:+ String dquote "canvas_export_path"
                           +:+ String dquote " in config"))
  | Some gb_fname =>
      let canvas_df := to_minimal_df gb_fname in
      let export_config := default {| merge_col := None; col_map := None; fname := None |}
                                   (export cfg) in
      match col_map export_config with
      | None => Raise TypeError
      | Some out_col_map =>
          match merge_col export_config with
          | None => Raise KeyError
          | Some merge_col =>
              mark_df ← select_columns (merge_col :: out_col_map.*1) mark_df;
              let mark_df := rename_columns out_col_map mark_df in
              merge canvas_df mark_df merge_col
          end
      end
  end.
End MergeExport.

(** ** The project column: [with_project_list] *)





(** ** [get_member2project] *)


(** ** Pulling the repositories: [pull_repos]

    A call of [subprocess.run] is recorded with its arguments and directory;
    what becomes of the [n]-th call of the run is given by [outcome n]: the
    process exits with a status, or it cannot be started (no such directory,
    no such program), which is an [OSError] whatever [check] is.  What is
    printed is not modelled. *)







(** ** The command line: [main] *)





(** ** Reference definitions for the statements, and sample data *)

Definition NL : string := String LF EmptyString.

(** The mapping the scanned lines denote: the fold of the matching lines. *)
Definition fold_marks (ls : list string) : gmap string Q :=
  foldl (λ marks L,
           match mark_line_match L with
           | Some (k, v) => <[k := float_value v]> marks
           | None => marks
           end) ∅ ls.

(** The shape of a mark line in the words of the specification: an optional
    bullet, a word token, a colon, a numeric token of digits with at most one
    decimal point (blanks allowed where the pattern allows them). *)
Definition spec_mark_line_shape (L : string) : Prop :=
  ∃ bullet ws1 k ws2 ws3 v ws4,
    L = bullet +:+ ws1 +:+ k +:+ ws2 +:+ ":" +:+ ws3 +:+ v +:+ ws4
    ∧ (bullet = EmptyString ∨ bullet = "*")
    ∧ all_chars is_space ws1 = true
    ∧ k ≠ EmptyString ∧ all_chars is_word k = true
    ∧ all_chars is_space ws2 = true ∧ all_chars is_space ws3 = true
    ∧ v ≠ EmptyString ∧ all_chars is_numch v = true
    ∧ (String.length (filter_chars (Ascii.eqb ".") v) ≤ 1)%nat
    ∧ all_chars is_space ws4 = true.

(** The shape of a line the pattern matches, with its two groups. *)
Definition mark_line_shape (L k v : string) : Prop :=
  ∃ ws1 ws2 ws3 ws4,
    L = "*" +:+ ws1 +:+ k +:+ ws2 +:+ ":" +:+ ws3 +:+ v +:+ ws4
    ∧ all_chars is_space ws1 = true ∧ all_chars is_word k = true
    ∧ all_chars is_space ws2 = true ∧ all_chars is_space ws3 = true
    ∧ v ≠ EmptyString ∧ all_chars is_numch v = true
    ∧ all_chars is_space ws4 = true.

(** A one-cell notebook whose last (markdown) cell is [src]. *)
Definition markdown_nb (src : string) : notebook :=
  {| cells := [ {| cell_type := "markdown"; source := src |} ] |}.

(** A mark block with a version-like token on its only mark line. *)
Definition two_dots_nb : notebook :=
  markdown_nb ("## Marks" +:+ NL +:+ NL +:+ "* Questions: 1.2.3").

(** When [get_nb_marks] answers "no marks" before it scans any line. *)
Definition no_mark_block (nb : notebook) : Prop :=
  cells nb = []
  ∨ ∃ c, last (cells nb) = Some c
      ∧ (cell_type c ≠ "markdown"
         ∨ (length (splitlines (source c)) < 2)%nat
         ∨ head (splitlines (source c)) ≠ Some "## Marks").

(** A notebook the locator passes over: no mark block, or an empty mapping. *)
Definition yields_nothing (nb : notebook) : Prop :=
  get_nb_marks nb = Ret None ∨ get_nb_marks nb = Ret (Some ∅).

(** A mark block that covers the six categories, and the notebook holding it. *)
Definition six_marks_src : string :=
  "## Marks" +:+ NL +:+ NL +:+ "* Questions: 9" +:+ NL +:+ "* Analysis: 7" +:+ NL
  +:+ "* Results: 8" +:+ NL +:+ "* Readability: 9" +:+ NL +:+ "* Writing: 8" +:+ NL
  +:+ "* Reproducibility: 7".

Definition six_marks_nb : notebook := markdown_nb six_marks_src.

(** A roster of two students, and a file system in which the projects [A] and
    [D] each hold [six_marks_nb], project [B] a block with one category only,
    and no other project holds a notebook. *)
Definition roster0 : DataFrame :=
  {| columns := {[ "name" ]};
     rows := {[ "alice" := {[ "name" := VStr "Alice" ]};
                "carol" := {[ "name" := VStr "Carol" ]} ]} |}.

Definition fs0 (name : string) : list notebook :=
  if String.eqb name "A" || String.eqb name "D" then [six_marks_nb]
  else if String.eqb name "B" then
    [markdown_nb ("## Marks" +:+ NL +:+ NL +:+ "* Questions: 9" +:+ NL +:+ "* Analysis: bad")]
  else [].

Definition config_of (ps : list (string * project)) : config :=
  {| projects := ps; marks_col := None; round_final := false;
     canvas_export_path := None; export := None |}.

Definition project_of (ms : list string) (p : Q) : project :=
  {| members := (λ m, (m, VNum 1)) <$> ms; presentation := p |}.

(** The table of a run, or [d] when the run raised. *)
Definition table_or (d : DataFrame) (r : result DataFrame) : DataFrame :=
  match r with
  | Ret df => df
  | Raise _ => d
  end.

(** A configuration with a gradebook path and, under [export], the keys given. *)
Definition export_config_of (ps : list (string * project)) (ex : option export_config) : config :=
  {| projects := ps; marks_col := None; round_final := false;
     canvas_export_path := Some "gradebook.csv"; export := ex |}.

(** A mark block with the values 2.8, 9.7, 5.6, 6.3, 7.0 and 2.9, and the file
    system [fs0] with that block added under project [E]. *)
Definition uneven_marks_src : string :=
  "## Marks" +:+ NL +:+ NL +:+ "* Questions: 2.8" +:+ NL +:+ "* Analysis: 9.7" +:+ NL
  +:+ "* Results: 5.6" +:+ NL +:+ "* Readability: 6.3" +:+ NL +:+ "* Writing: 7.0" +:+ NL
  +:+ "* Reproducibility: 2.9".

Definition fs1 (name : string) : list notebook :=
  if String.eqb name "E" then [markdown_nb uneven_marks_src] else fs0 name.

(** The arithmetic mean of a list of numbers in exact arithmetic. *)
Definition exact_mean (xs : list Q) : Q :=
  foldr Qplus 0%Q xs / inject_Z (Z.of_nat (length xs)).

(** The float a numeric cell stands for. *)
Definition float_of_cell (v : value) : option Q :=
  match v with
  | VStr _ => None
  | VNum q => Some (b64_round q)
  | VFloat x => Some x
  end.

(** The seven fields of row [i] that are averaged, as floats. *)
Definition row_fields (df : DataFrame) (i : string) : list Q :=
  omap (λ c, df_cell df i c ≫= float_of_cell) mean_cols.




(** * Properties *)

#[local] Arguments String.append : simpl nomatch.

(** ** Texts and the pattern *)

Section Chars.
Ltac by_cases c := destruct c as [[] [] [] [] [] [] [] []]; vm_compute; congruence.

Lemma space_not_word c : is_space c = true → is_word c = false.
Proof. by_cases c. Qed.
Lemma space_not_numch c : is_space c = true → is_numch c = false.
Proof. by_cases c. Qed.
Lemma space_not_colon c : is_space c = true → Ascii.eqb c ":" = false.
Proof. by_cases c. Qed.
Lemma word_not_colon c : is_word c = true → Ascii.eqb c ":" = false.
Proof. by_cases c. Qed.
End Chars.

Lemma app_assoc_s (a b c : string) : (a +:+ b) +:+ c = a +:+ (b +:+ c).
Proof. induction a as [|x a IH]; simpl; [done | by f_equal]. Qed.

Lemma all_chars_app cls a b :
  all_chars cls (a +:+ b) = all_chars cls a && all_chars cls b.
Proof. induction a as [|x a IH]; simpl; [done |]. rewrite IH. by rewrite andb_assoc. Qed.

Lemma all_chars_impl (p q : ascii → bool) s :
  (∀ c, p c = true → q c = true) → all_chars p s = true → all_chars q s = true.
Proof.
  intros Hpq. induction s as [|c s IH]; simpl; [done |].
  intros [Hc Hs]%andb_true_iff. rewrite (Hpq _ Hc). by apply IH.
Qed.

Lemma filter_chars_app cls a b :
  filter_chars cls (a +:+ b) = filter_chars cls a +:+ filter_chars cls b.
Proof. induction a as [|x a IH]; simpl; [done |]. destruct (cls x); simpl; by rewrite IH. Qed.

Lemma filter_chars_all cls s : all_chars cls s = true → filter_chars cls s = s.
Proof.
  induction s as [|c s IH]; simpl; [done |].
  intros [-> Hs]%andb_true_iff. by rewrite IH.
Qed.

Lemma filter_chars_none cls s :
  all_chars (λ c, negb (cls c)) s = true → filter_chars cls s = EmptyString.
Proof.
  induction s as [|c s IH]; simpl; [done |].
  intros [Hc Hs]%andb_true_iff. apply negb_true_iff in Hc. rewrite Hc. by apply IH.
Qed.

Lemma str_partition_app sep a b :
  all_chars (λ c, negb (Ascii.eqb c sep)) a = true →
  str_partition sep (a +:+ String sep b) = (a, Some b).
Proof.
  induction a as [|c a IH]; simpl.
  - intros _. by rewrite Ascii.eqb_refl.
  - intros [Hc Ha]%andb_true_iff. apply negb_true_iff in Hc. rewrite Hc.
    by rewrite (IH Ha).
Qed.

Module ReFacts.
Section Facts.
Context {A : Type}.
Implicit Types (k : string → string → option A).

Lemma star_Some cls s k a :
  Re.star cls s k = Some a →
  ∃ m r, s = m +:+ r ∧ all_chars cls m = true ∧ k m r = Some a.
Proof.
  revert k. induction s as [|c s IH]; intros k; simpl.
  - intros Hk. by exists EmptyString, EmptyString.
  - destruct (cls c) eqn:Hc.
    + destruct (Re.star cls s _) as [a'|] eqn:Hs.
      * intros [= ->]. apply IH in Hs as (m & r & -> & Hm & Hk).
        exists (String c m), r. simpl. by rewrite Hc, Hm.
      * intros Hk. by exists EmptyString, (String c s).
    + intros Hk. by exists EmptyString, (String c s).
Qed.

Lemma star_None cls s k :
  Re.star cls s k = None →
  ∀ m r, s = m +:+ r → all_chars cls m = true → k m r = None.
Proof.
  revert k. induction s as [|c s IH]; intros k; simpl.
  - intros Hk [|??] r; simpl; [by intros <- | done].
  - destruct (cls c) eqn:Hc.
    + destruct (Re.star cls s _) eqn:Hs; [done |].
      intros Hk [|c' m] r; simpl.
      * by intros <-.
      * intros [= <- ->] [_ Hm]%andb_true_iff.
        by apply (IH _ Hs m r).
    + intros Hk [|c' m] r; simpl.
      * by intros <-.
      * intros [= <- ->]. by rewrite Hc.
Qed.

Lemma plus_Some cls s k a :
  Re.plus cls s k = Some a →
  ∃ m r, s = m +:+ r ∧ m ≠ EmptyString ∧ all_chars cls m = true ∧ k m r = Some a.
Proof.
  destruct s as [|c s]; simpl; [done |].
  destruct (cls c) eqn:Hc; [| done].
  intros (m & r & -> & Hm & Hk)%star_Some.
  exists (String c m), r. simpl. by rewrite Hc, Hm.
Qed.

Lemma plus_None cls s k :
  Re.plus cls s k = None →
  ∀ m r, s = m +:+ r → m ≠ EmptyString → all_chars cls m = true → k m r = None.
Proof.
  destruct s as [|c s]; simpl.
  - by intros _ [|??] r.
  - intros Hs [|c' m] r; [done |]. simpl.
    intros [= <- ->] _ [Hc Hm]%andb_true_iff. rewrite Hc in Hs.
    by apply (star_None _ _ _ Hs m r).
Qed.
End Facts.

Lemma at_end_blank s : Re.at_end s = true → all_chars is_space s = true.
Proof.
  unfold Re.at_end. intros [H|H]%orb_true_iff; apply String.eqb_eq in H; by subst.
Qed.
End ReFacts.

Lemma mark_line_match_shape_1 L k v :
  mark_line_match L = Some (k, v) → mark_line_shape L k v.
Proof.
  unfold mark_line_match, Re.lit.
  destruct L as [|c r0]; [done |].
  destruct (Ascii.eqb "*" c) eqn:Hc; [| done]. apply Ascii.eqb_eq in Hc as <-.
  intros (ws1 & r1 & -> & H1 & H)%ReFacts.star_Some.
  apply ReFacts.star_Some in H as (k' & r2 & -> & Hk & H).
  apply ReFacts.star_Some in H as (ws2 & r3 & -> & H2 & H).
  destruct r3 as [|c r4]; [done |].
  destruct (Ascii.eqb ":" c) eqn:Hc; [| done]. apply Ascii.eqb_eq in Hc as <-.
  apply ReFacts.star_Some in H as (ws3 & r5 & -> & H3 & H).
  apply ReFacts.plus_Some in H as (v' & r6 & -> & Hne & Hv & H).
  apply ReFacts.star_Some in H as (ws4 & r7 & -> & H4 & H).
  destruct (Re.at_end r7) eqn:He; [| done]. injection H as -> ->.
  exists ws1, ws2, ws3, (ws4 +:+ r7). repeat split; try done.
  rewrite all_chars_app, H4. by rewrite (ReFacts.at_end_blank _ He).
Qed.

Lemma append_nil_r (s : string) : s +:+ EmptyString = s.
Proof. induction s as [|c s IH]; simpl; [done | by f_equal]. Qed.

Lemma mark_line_match_shape_2 L k v :
  mark_line_shape L k v → mark_line_match L ≠ None.
Proof.
  intros (ws1 & ws2 & ws3 & ws4 & -> & H1 & Hk & H2 & H3 & Hne & Hv & H4) Hnone.
  unfold mark_line_match in Hnone. simpl in Hnone.
  pose proof (ReFacts.star_None _ _ _ Hnone ws1 _ eq_refl H1) as H.
  pose proof (ReFacts.star_None _ _ _ H k _ eq_refl Hk) as H'. clear H.
  pose proof (ReFacts.star_None _ _ _ H' ws2 _ eq_refl H2) as H. clear H'.
  simpl in H.
  pose proof (ReFacts.star_None _ _ _ H ws3 _ eq_refl H3) as H'. clear H.
  pose proof (ReFacts.plus_None _ _ _ H' v _ eq_refl Hne Hv) as H. clear H'.
  pose proof (ReFacts.star_None _ _ _ H ws4 EmptyString) as H'. clear H.
  rewrite append_nil_r in H'. specialize (H' eq_refl H4). done.
Qed.

Lemma mark_line_shape_unique L k v k' v' :
  mark_line_shape L k v → mark_line_shape L k' v' → k = k' ∧ v = v'.
Proof.
  intros (a1 & a2 & a3 & a4 & -> & Ha1 & Hk & Ha2 & Ha3 & _ & Hv & Ha4).
  intros (b1 & b2 & b3 & b4 & HL & Hb1 & Hk' & Hb2 & Hb3 & _ & Hv' & Hb4).
  injection HL as HL.
  assert (Hcut : ∀ w1 w w2 rest, all_chars is_space w1 = true →
            all_chars is_word w = true → all_chars is_space w2 = true →
            str_partition ":" (w1 +:+ w +:+ w2 +:+ String ":" rest)
            = (w1 +:+ w +:+ w2, Some rest)).
  { intros w1 w w2 rest Hw1 Hw Hw2.
    replace (w1 +:+ w +:+ w2 +:+ String ":" rest)
      with ((w1 +:+ w +:+ w2) +:+ String ":" rest) by (by rewrite !app_assoc_s).
    apply str_partition_app.
    rewrite !all_chars_app. repeat (apply andb_true_iff; split).
    - eapply all_chars_impl; [| exact Hw1]. intros c Hc. by rewrite space_not_colon.
    - eapply all_chars_impl; [| exact Hw]. intros c Hc. by rewrite word_not_colon.
    - eapply all_chars_impl; [| exact Hw2]. intros c Hc. by rewrite space_not_colon. }
  pose proof (Hcut a1 k a2 (a3 +:+ v +:+ a4) Ha1 Hk Ha2) as Ea.
  pose proof (Hcut b1 k' b2 (b3 +:+ v' +:+ b4) Hb1 Hk' Hb2) as Eb.
  rewrite HL, Eb in Ea. injection Ea as Eleft Eright.
  assert (Hmid : ∀ (p : ascii → bool) w1 w w2,
            (∀ c, is_space c = true → p c = false) →
            all_chars is_space w1 = true → all_chars p w = true →
            all_chars is_space w2 = true →
            filter_chars p (w1 +:+ w +:+ w2) = w).
  { intros p w1 w w2 Hp Hw1 Hw Hw2. rewrite !filter_chars_app.
    rewrite (filter_chars_none p w1), (filter_chars_none p w2), (filter_chars_all p w);
      [by rewrite append_nil_r | done | |].
    - eapply all_chars_impl; [| exact Hw2]. intros c Hc. by rewrite Hp.
    - eapply all_chars_impl; [| exact Hw1]. intros c Hc. by rewrite Hp. }
  split.
  - rewrite <- (Hmid is_word a1 k a2 space_not_word Ha1 Hk Ha2).
    rewrite <- (Hmid is_word b1 k' b2 space_not_word Hb1 Hk' Hb2). by rewrite Eleft.
  - rewrite <- (Hmid is_numch a3 v a4 space_not_numch Ha3 Hv Ha4).
    rewrite <- (Hmid is_numch b3 v' b4 space_not_numch Hb3 Hv' Hb4). by rewrite Eright.
Qed.

Lemma mark_line_match_shape L k v :
  mark_line_match L = Some (k, v) ↔ mark_line_shape L k v.
Proof.
  split; [apply mark_line_match_shape_1 |].
  intros Hs. destruct (mark_line_match L) as [[k' v']|] eqn:Hm.
  - apply mark_line_match_shape_1 in Hm.
    by destruct (mark_line_shape_unique _ _ _ _ _ Hs Hm) as [-> ->].
  - by apply mark_line_match_shape_2 in Hs.
Qed.

Lemma float_wf_Ret v : float_wf v = true → float_ v = Ret (float_value v).
Proof. unfold float_. by intros ->. Qed.

Lemma scan_lines_foldl ls : ∀ marks,
  (∀ L k v, L ∈ ls → mark_line_match L = Some (k, v) → float_wf v = true) →
  scan_lines marks ls
  = Ret (foldl (λ marks L,
                  match mark_line_match L with
                  | Some (k, v) => <[k := float_value v]> marks
                  | None => marks
                  end) marks ls).
Proof.
  induction ls as [|L ls IH]; intros marks Hwf; simpl; [done |].
  unfold scan_line. destruct (mark_line_match L) as [[k v]|] eqn:Hm; simpl.
  - rewrite (float_wf_Ret v); [| eapply Hwf; [left | done]]. simpl.
    apply IH. intros L' k' v' HL'. apply Hwf. by right.
  - apply IH. intros L' k' v' HL'. apply Hwf. by right.
Qed.

Lemma fold_marks_snoc ls L :
  fold_marks (ls ++ [L])
  = match mark_line_match L with
    | Some (k, v) => <[k := float_value v]> (fold_marks ls)
    | None => fold_marks ls
    end.
Proof. unfold fold_marks. by rewrite foldl_app. Qed.

Lemma fold_marks_lookup ls k x :
  fold_marks ls !! k = Some x ↔
  ∃ pre L post v, ls = pre ++ L :: post ∧ mark_line_shape L k v ∧ x = float_value v
    ∧ ∀ L' v', L' ∈ post → ¬ mark_line_shape L' k v'.
Proof.
  induction ls as [|L ls IH] using rev_ind.
  - split; [done |]. intros (pre & L & post & v & E & _). by destruct pre.
  - rewrite fold_marks_snoc.
    assert (Hskip : (∀ v, ¬ mark_line_shape L k v) →
              (∃ pre L0 post v, ls ++ [L] = pre ++ L0 :: post ∧ mark_line_shape L0 k v
                 ∧ x = float_value v ∧ ∀ L' v', L' ∈ post → ¬ mark_line_shape L' k v')
              ↔ fold_marks ls !! k = Some x).
    { intros HL. rewrite IH. split.
      - intros (pre & L0 & post & v & E & Hs & Hx & Hpost).
        destruct post as [|p post _] using rev_ind.
        + apply app_inj_tail in E as [_ ->]. by destruct (HL v).
        + rewrite app_comm_cons, app_assoc in E. apply app_inj_tail in E as [-> ->].
          exists pre, L0, post, v. repeat split; try done.
          intros L' v' HL'. apply Hpost. apply elem_of_app. by left.
      - intros (pre & L0 & post & v & -> & Hs & Hx & Hpost).
        exists pre, L0, (post ++ [L]), v. rewrite <- app_assoc. repeat split; try done.
        intros L' v' [HL'| ->%list_elem_of_singleton]%elem_of_app; [by apply Hpost | apply HL]. }
    destruct (mark_line_match L) as [[k' v']|] eqn:Hm.
    + destruct (decide (k' = k)) as [-> | Hne].
      * rewrite lookup_insert_eq. split.
        -- intros [= <-]. exists ls, L, [], v'. repeat split; try done.
           ++ by apply mark_line_match_shape.
           ++ intros L' v0 HL'. by apply elem_of_nil in HL'.
        -- intros (pre & L0 & post & v & E & Hs & -> & Hpost).
           destruct post as [|p post _] using rev_ind.
           ++ apply app_inj_tail in E as [_ ->].
              apply mark_line_match_shape in Hs. rewrite Hs in Hm. by injection Hm as ->.
           ++ rewrite app_comm_cons, app_assoc in E. apply app_inj_tail in E as [_ ->].
              destruct (Hpost p v'); [apply elem_of_app; right; by left |].
              by apply mark_line_match_shape.
      * rewrite lookup_insert_ne by done. symmetry. apply Hskip.
        intros v Hs. apply mark_line_match_shape in Hs. rewrite Hs in Hm. congruence.
    + symmetry. apply Hskip.
      intros v Hs. apply mark_line_match_shape in Hs. rewrite Hs in Hm. congruence.
Qed.

(** C3 (as amended).  When every numeric token the pattern captures is
    well formed, the parser's result for a list of scanned lines is the fold
    of the matching lines, and a line matches exactly when it is a star
    bullet, blanks, a possibly empty word token, blanks, a colon, blanks, a
    token of digits and dots, blanks; a category is mapped to the value of
    its last matching line. *)
Theorem scan_lines_fold (ls : list string) :
  (∀ L k v, L ∈ ls → mark_line_shape L k v → float_wf v = true) →
  scan_lines ∅ ls = Ret (fold_marks ls)
  ∧ ∀ k x, fold_marks ls !! k = Some x ↔
      ∃ pre L post v, ls = pre ++ L :: post ∧ mark_line_shape L k v
        ∧ x = float_value v
        ∧ ∀ L' v', L' ∈ post → ¬ mark_line_shape L' k v'.
Proof.
  intros Hwf. split.
  - apply scan_lines_foldl. intros L k v HL Hm. apply (Hwf L k v HL).
    by apply mark_line_match_shape.
  - intros k x. apply fold_marks_lookup.
Qed.

Lemma scan_lines_fold_witness :
  let ls := ["* Questions: 9"; "Analysis 7"; "* Questions: 2.5"] in
  scan_lines ∅ ls = Ret (fold_marks ls)
  ∧ ∀ k x, fold_marks ls !! k = Some x ↔
      ∃ pre L post v, ls = pre ++ L :: post ∧ mark_line_shape L k v
        ∧ x = float_value v
        ∧ ∀ L' v', L' ∈ post → ¬ mark_line_shape L' k v'.
Proof.
  intros ls. apply (scan_lines_fold ls).
  intros L k v HL Hs. apply mark_line_match_shape in Hs.
  unfold ls in HL. rewrite !elem_of_cons in HL.
  destruct HL as [-> | [-> | [-> | HL]]];
    [vm_compute in Hs; by (discriminate || injection Hs as <- <-) .. |].
  by apply elem_of_nil in HL.
Defined.

(** C3, the claim as worded, fails: a line without the bullet has the shape
    the claim describes and contributes nothing. *)
Lemma scan_lines_bullet_required :
  spec_mark_line_shape "Questions: 9"
  ∧ mark_line_match "Questions: 9" = None
  ∧ scan_lines ∅ ["Questions: 9"] = Ret ∅.
Proof.
  split; [| split; reflexivity].
  exists EmptyString, EmptyString, "Questions", EmptyString, " ", "9", EmptyString.
  repeat split; try done; try (by left); vm_compute; lia.
Qed.

(** C1 (the code departs from the claim).  A line the pattern matches can
    carry a token [float] rejects: the line below is scanned, matched with the
    token [1.2.3], and the conversion raises [ValueError] out of
    [get_nb_marks]. *)
Theorem get_nb_marks_two_dots_raises :
  mark_line_match "* Questions: 1.2.3" = Some ("Questions", "1.2.3")
  ∧ float_ "1.2.3" = Raise (ValueError "could not convert string to float: '1.2.3'")
  ∧ get_nb_marks two_dots_nb
    = Raise (ValueError "could not convert string to float: '1.2.3'").
Proof. repeat split; reflexivity. Qed.

(** C7.  [get_nb_marks] answers "no marks" when the notebook has no cell, or
    its last cell is not markdown, or that cell has fewer than two lines, or
    its first line is not the header; and when the header is there, the
    result is computed from the lines after the second one alone. *)
Theorem get_nb_marks_header (nb : notebook) :
  (no_mark_block nb → get_nb_marks nb = Ret None)
  ∧ (∀ c second rest,
       last (cells nb) = Some c → cell_type c = "markdown" →
       splitlines (source c) = "## Marks" :: second :: rest →
       get_nb_marks nb = marks ← scan_lines ∅ rest; Ret (Some marks)).
Proof.
  unfold get_nb_marks. split.
  - intros [Hnil | (c & Hc & Hcases)].
    + by rewrite Hnil.
    + rewrite Hc. destruct (String.eqb (cell_type c) "markdown") eqn:Ht; simpl; [| done].
      apply String.eqb_eq in Ht.
      destruct Hcases as [Hty | [Hlen | Hhd]]; [done | |].
      * apply Nat.ltb_lt in Hlen. by rewrite Hlen.
      * destruct (_ <? _)%nat; [done |].
        destruct (splitlines (source c)) as [|first lines]; [done |].
        destruct (String.eqb first "## Marks") eqn:Hf; simpl; [| done].
        apply String.eqb_eq in Hf. by subst.
  - intros c second rest -> -> ->. done.
Qed.

Lemma get_nb_marks_header_witness :
  get_nb_marks (markdown_nb ("# Marks" +:+ NL +:+ NL +:+ "* Questions: 9")) = Ret None
  ∧ get_nb_marks (markdown_nb ("## Marks" +:+ NL +:+ "* Analysis: 7" +:+ NL +:+ "* Questions: 9"))
    = marks ← scan_lines ∅ ["* Questions: 9"]; Ret (Some marks).
Proof.
  split.
  - apply (proj1 (get_nb_marks_header _)). right.
    eexists. split; [reflexivity |]. right. right. vm_compute. congruence.
  - eapply (proj2 (get_nb_marks_header _)); reflexivity.
Defined.

(** C8.  [get_proj_marks] returns the mapping of the first notebook, in
    enumeration order, whose parse is a non-empty mapping, the notebooks before
    it yielding no mark block or an empty mapping; when every notebook yields
    one of these two, it returns [None]. *)
Theorem get_proj_marks_first (nb_paths : list notebook) :
  (∀ pre nb post marks,
     nb_paths = pre ++ nb :: post → Forall yields_nothing pre →
     get_nb_marks nb = Ret (Some marks) → marks ≠ ∅ →
     get_proj_marks nb_paths = Ret (Some marks))
  ∧ (Forall yields_nothing nb_paths → get_proj_marks nb_paths = Ret None).
Proof.
  split.
  - intros pre nb post marks -> Hpre Hnb Hne.
    induction Hpre as [|nb' pre [H|H] _ IH]; simpl.
    + rewrite Hnb. simpl. by rewrite bool_decide_eq_true_2.
    + by rewrite H.
    + rewrite H. simpl. by rewrite bool_decide_eq_false_2 by (intros ?; done).
  - intros Hall. induction Hall as [|nb' l [H|H] _ IH]; simpl; [done | |].
    + by rewrite H.
    + rewrite H. simpl. by rewrite bool_decide_eq_false_2 by (intros ?; done).
Qed.

Lemma get_proj_marks_first_witness :
  let empty_block := markdown_nb ("## Marks" +:+ NL +:+ NL) in
  let nine := markdown_nb ("## Marks" +:+ NL +:+ NL +:+ "* Questions: 9") in
  let two := markdown_nb ("## Marks" +:+ NL +:+ NL +:+ "* Questions: 2") in
  get_proj_marks [markdown_nb "notes"; empty_block; nine; two]
  = Ret (Some {[ "Questions" := 9%Q ]})
  ∧ get_proj_marks [markdown_nb "notes"; empty_block] = Ret None.
Proof.
  intros empty_block nine two. split.
  - apply (proj1 (get_proj_marks_first [markdown_nb "notes"; empty_block; nine; two])
             [markdown_nb "notes"; empty_block] nine [two]).
    + reflexivity.
    + constructor; [by left |]. constructor; [by right | constructor].
    + reflexivity.
    + intros H. apply (f_equal (λ m : gmap string Q, m !! "Questions")) in H.
      vm_compute in H. discriminate.
  - apply (proj2 (get_proj_marks_first [markdown_nb "notes"; empty_block])).
    constructor; [by left |]. constructor; [by right | constructor].
Defined.

(** ** The roster under the project loop *)

Lemma loc_set_rows_ne i j marks df :
  i ≠ j → rows (loc_set i marks df) !! j = rows df !! j.
Proof. intros Hne. unfold loc_set. simpl. by rewrite lookup_insert_ne. Qed.

Lemma loc_set_rows_eq i marks df :
  rows (loc_set i marks df) !! i = Some (marks ∪ default ∅ (rows df !! i)).
Proof. unfold loc_set. simpl. by rewrite lookup_insert_eq. Qed.

Lemma write_members_snoc marks ms member contrib_score df :
  write_members marks (ms ++ [(member, contrib_score)]) df
  = loc_set member (<["Contribution" := contrib_score]> marks) (write_members marks ms df).
Proof. unfold write_members. by rewrite foldl_app. Qed.

Lemma write_members_frame marks ms df j :
  j ∉ ms.*1 → rows (write_members marks ms df) !! j = rows df !! j.
Proof.
  induction ms as [|[member c] ms IH] using rev_ind; [done |].
  rewrite fmap_app, not_elem_of_app. simpl. intros [Hms Hj].
  rewrite write_members_snoc, loc_set_rows_ne; [by apply IH |].
  intros ->. apply Hj. by left.
Qed.

Lemma write_members_cell marks ms df member col v :
  member ∈ ms.*1 → marks !! col = Some v → col ≠ "Contribution" →
  df_cell (write_members marks ms df) member col = Some v.
Proof.
  intros Hin Hcol Hne.
  induction ms as [|[member' c] ms IH] using rev_ind; [by apply elem_of_nil in Hin |].
  rewrite write_members_snoc. unfold df_cell.
  destruct (decide (member' = member)) as [-> | Hm].
  - rewrite loc_set_rows_eq. simpl.
    apply lookup_union_Some_l. by rewrite lookup_insert_ne.
  - rewrite loc_set_rows_ne by done. apply IH.
    rewrite fmap_app, elem_of_app in Hin. destruct Hin as [Hin | Hin]; [done |].
    simpl in Hin. apply list_elem_of_singleton in Hin. congruence.
Qed.

Lemma process_projects_app fs allow pre post cl :
  process_projects fs allow (pre ++ post) cl
  = cl' ← process_projects fs allow pre cl; process_projects fs allow post cl'.
Proof.
  revert cl. induction pre as [|[name p] pre IH]; intros cl; simpl; [done |].
  destruct (project_step fs allow cl name p) as [cl1 | e]; simpl; [apply IH | done].
Qed.

Lemma project_step_frame fs allow cl name p cl' j :
  project_step fs allow cl name p = Ret cl' → j ∉ (members p).*1 →
  rows cl' !! j = rows cl !! j.
Proof.
  unfold project_step. destruct (get_proj_marks (fs name)) as [[pm|]|e]; simpl; [| | done].
  - destruct (valid_marks pm); simpl; [| done]. intros [= <-] Hj.
    by apply write_members_frame.
  - destruct allow; simpl; [| done]. by intros [= <-].
Qed.

Lemma process_projects_frame fs allow ps cl cl' j :
  process_projects fs allow ps cl = Ret cl' →
  (∀ name p, (name, p) ∈ ps → j ∉ (members p).*1) →
  rows cl' !! j = rows cl !! j.
Proof.
  revert cl. induction ps as [|[name p] ps IH]; intros cl; simpl.
  - by intros [= <-].
  - destruct (project_step fs allow cl name p) as [cl1 | e] eqn:Hstep; simpl; [| done].
    intros Hps Hj. rewrite (IH _ Hps).
    + eapply project_step_frame; [done |]. apply (Hj name). by left.
    + intros name' p' Hin. apply (Hj name'). by right.
Qed.

Lemma process_projects_raises fs allow ps cl name p :
  (name, p) ∈ ps → (∀ cl0, raises (project_step fs allow cl0 name p)) →
  raises (process_projects fs allow ps cl).
Proof.
  intros Hin Hstep. revert cl.
  induction ps as [|[name' p'] ps IH]; intros cl; [by apply elem_of_nil in Hin |].
  simpl. apply elem_of_cons in Hin as [[= <- <-] | Hin].
  - destruct (Hstep cl) as [e ->]. by exists e.
  - destruct (project_step fs allow cl name' p') as [cl1 | e]; simpl.
    + by apply IH.
    + by exists e.
Qed.

Lemma get_marks_raises cl fs cfg allow :
  raises (process_projects fs allow (projects cfg) cl) → raises (get_marks cl fs cfg allow).
Proof. intros [e He]. unfold get_marks. rewrite He. by exists e. Qed.

(** C5.  The schema assertion accepts a mapping exactly when its keys are the
    six categories, no more and no fewer; a project whose marks fail it makes
    the step raise [AssertionError], and the whole of [get_marks] raise,
    whatever the allow-missing flag. *)
Theorem valid_marks_exact (proj_marks : gmap string Q) :
  (valid_marks proj_marks = true ↔ ∀ k, is_Some (proj_marks !! k) ↔ k ∈ MARK_CATEGORIES)
  ∧ (∀ fs allow_missing class_list name pconfig,
       get_proj_marks (fs name) = Ret (Some proj_marks) →
       valid_marks proj_marks = false →
       project_step fs allow_missing class_list name pconfig = Raise AssertionError)
  ∧ (∀ fs allow_missing class_list cfg name pconfig,
       (name, pconfig) ∈ projects cfg →
       get_proj_marks (fs name) = Ret (Some proj_marks) →
       valid_marks proj_marks = false →
       raises (get_marks class_list fs cfg allow_missing)).
Proof.
  assert (Hstep : ∀ fs allow_missing class_list name pconfig,
            get_proj_marks (fs name) = Ret (Some proj_marks) →
            valid_marks proj_marks = false →
            project_step fs allow_missing class_list name pconfig = Raise AssertionError).
  { intros fs allow cl name p Hpm Hv. unfold project_step. rewrite Hpm. simpl. by rewrite Hv. }
  split; [| split; [exact Hstep |]].
  - unfold valid_marks. rewrite bool_decide_eq_true. split.
    + intros Hdom k. by rewrite <- elem_of_dom, Hdom, elem_of_list_to_set.
    + intros Hk. apply set_eq. intros k. by rewrite elem_of_dom, Hk, elem_of_list_to_set.
  - intros fs allow cl cfg name p Hin Hpm Hv.
    apply get_marks_raises. apply (process_projects_raises _ _ _ _ name p Hin).
    intros cl0. exists AssertionError. by apply Hstep.
Qed.

Lemma valid_marks_exact_witness :
  raises (get_marks roster0 fs0
            (config_of [("A", project_of ["alice"] 8); ("B", project_of ["carol"] 6)]) true).
Proof.
  apply (proj2 (proj2 (valid_marks_exact {[ "Questions" := 9%Q ]}))
           fs0 true roster0 _ "B" (project_of ["carol"] 6)).
  - right. left.
  - reflexivity.
  - reflexivity.
Defined.

(** C6.  When the locator finds no mark block for a project: with the flag
    off, the step raises [RuntimeError] with a message ending in the project's
    name, and so does [get_marks] once the earlier projects are through; with
    the flag on, the step leaves the roster as it was, and [get_marks] gives
    what it gives for the configuration without that project. *)
Theorem missing_marks_policy (fs : string → list notebook) (name : string) (pconfig : project) :
  get_proj_marks (fs name) = Ret None →
  (∀ class_list,
     project_step fs false class_list name pconfig
     = Raise (RuntimeError ("Missing project marks for " +:+ name)))
  ∧ (∀ class_list, project_step fs true class_list name pconfig = Ret class_list)
  ∧ (∀ class_list cfg pre post,
       projects cfg = pre ++ (name, pconfig) :: post →
       raises (get_marks class_list fs cfg false)
       ∧ (∀ class_list', process_projects fs false pre class_list = Ret class_list' →
            get_marks class_list fs cfg false
            = Raise (RuntimeError ("Missing project marks for " +:+ name)))
       ∧ get_marks class_list fs cfg true
         = get_marks class_list fs (with_projects (pre ++ post) cfg) true).
Proof.
  intros Hnone.
  assert (Hoff : ∀ cl, project_step fs false cl name pconfig
                       = Raise (RuntimeError ("Missing project marks for " +:+ name))).
  { intros cl. unfold project_step. by rewrite Hnone. }
  assert (Hon : ∀ cl, project_step fs true cl name pconfig = Ret cl).
  { intros cl. unfold project_step. by rewrite Hnone. }
  split; [exact Hoff | split; [exact Hon |]].
  intros cl cfg pre post Hps. split; [| split].
  - apply get_marks_raises. apply (process_projects_raises _ _ _ _ name pconfig).
    + rewrite Hps. apply elem_of_app. right. by left.
    + intros cl0. eexists. apply Hoff.
  - intros cl' Hpre. unfold get_marks.
    rewrite Hps, process_projects_app, Hpre. simpl. by rewrite Hoff.
  - unfold get_marks. simpl. rewrite Hps, !process_projects_app.
    destruct (process_projects fs true pre cl) as [cl1 | e]; simpl; [| done].
    by rewrite Hon.
Qed.

Lemma missing_marks_policy_witness :
  get_marks roster0 fs0
    (config_of [("A", project_of ["alice"] 8); ("C", project_of ["carol"] 6)]) false
  = Raise (RuntimeError "Missing project marks for C")
  ∧ get_marks roster0 fs0
      (config_of [("A", project_of ["alice"] 8); ("C", project_of ["carol"] 6)]) true
    = get_marks roster0 fs0 (config_of [("A", project_of ["alice"] 8)]) true.
Proof.
  pose proof (missing_marks_policy fs0 "C" (project_of ["carol"] 6) eq_refl) as (_ & _ & H).
  destruct (H roster0
              (config_of [("A", project_of ["alice"] 8); ("C", project_of ["carol"] 6)])
              [("A", project_of ["alice"] 8)] [] eq_refl) as (_ & Hoff & Hon).
  split.
  - eapply Hoff. reflexivity.
  - exact Hon.
Defined.

Lemma valid_marks_iff (proj_marks : gmap string Q) :
  valid_marks proj_marks = true ↔ ∀ k, is_Some (proj_marks !! k) ↔ k ∈ MARK_CATEGORIES.
Proof.
  unfold valid_marks. rewrite bool_decide_eq_true. split.
  - intros Hdom k. by rewrite <- elem_of_dom, Hdom, elem_of_list_to_set.
  - intros Hk. apply set_eq. intros k. by rewrite elem_of_dom, Hk, elem_of_list_to_set.
Qed.

Lemma final_cell c (f : gmap string value → option Q) cols
    (rws : gmap string (gmap string value)) i :
  df_cell {| columns := cols; rows := (λ row, set_cell c (f row) row) <$> rws |} i c
  = rws !! i ≫= λ row, VFloat <$> f row.
Proof.
  unfold df_cell. simpl. rewrite lookup_fmap.
  destruct (rws !! i) as [row|]; simpl; [| done].
  unfold set_cell. destruct (f row); simpl.
  - by rewrite lookup_insert_eq.
  - by rewrite lookup_delete_eq.
Qed.

Lemma other_cell c c' (f : gmap string value → option Q) cols
    (rws : gmap string (gmap string value)) i :
  c' ≠ c →
  df_cell {| columns := cols; rows := (λ row, set_cell c (f row) row) <$> rws |} i c'
  = rws !! i ≫= λ row, row !! c'.
Proof.
  intros Hne. unfold df_cell. simpl. rewrite lookup_fmap.
  destruct (rws !! i) as [row|]; simpl; [| done].
  unfold set_cell. destruct (f row); simpl.
  - by rewrite lookup_insert_ne.
  - by rewrite lookup_delete_ne.
Qed.

Lemma astype_errors_nil (rws : gmap string (gmap string value)) i row c :
  astype_errors rws = [] → rws !! i = Some row → c ∈ mean_cols →
  ∃ x, astype_float (row !! c) = Ret x.
Proof.
  intros Hnil Hrow Hc.
  destruct (astype_float (row !! c)) as [x|e] eqn:Hx; [by exists x |].
  assert (He : e ∈ astype_errors rws); [| by rewrite Hnil in He; apply elem_of_nil in He].
  unfold astype_errors. apply list_elem_of_bind. exists c. split; [| done].
  apply list_elem_of_bind. exists row. split; [rewrite Hx; by left |].
  apply list_elem_of_fmap. exists (i, row). split; [done |].
  by apply elem_of_map_to_list.
Qed.

Lemma sum_of_seven x0 q a r rd w rp :
  nanmean [Some x0; Some q; Some a; Some r; Some rd; Some w; Some rp]
  = (s1 ← fadd x0 q; s2 ← fadd s1 a; s3 ← fadd s2 r; s4 ← fadd s3 rd;
     s5 ← fadd s4 w; s6 ← fadd s5 rp; Some (fdiv s6 7)).
Proof.
  unfold nanmean, fsum. simpl.
  destruct (fadd x0 q) as [s1|]; simpl; [| done].
  destruct (fadd s1 a) as [s2|]; simpl; [| done].
  destruct (fadd s2 r) as [s3|]; simpl; [| done].
  destruct (fadd s3 rd) as [s4|]; simpl; [| done].
  destruct (fadd s4 w) as [s5|]; simpl; [| done].
  by destruct (fadd s5 rp) as [s6|].
Qed.

Lemma row_mean_seven (row : gmap string value) p q a r rd w rp x0 :
  row !! "Presentation" = Some (VNum p) →
  astype_float (Some (VNum p)) = Ret x0 →
  row !! "Questions" = Some (VFloat q) → row !! "Analysis" = Some (VFloat a) →
  row !! "Results" = Some (VFloat r) → row !! "Readability" = Some (VFloat rd) →
  row !! "Writing" = Some (VFloat w) → row !! "Reproducibility" = Some (VFloat rp) →
  x0 = Some (b64_round p)
  ∧ row_mean row
    = Ret (nanmean [Some (b64_round p); Some q; Some a; Some r; Some rd; Some w; Some rp]).
Proof.
  intros Hp Hx0 Hq Ha Hr Hrd Hw Hrp.
  assert (Hconv : astype_float (Some (VNum p)) = Ret (Some (b64_round p))).
  { revert Hx0. simpl. by destruct (is_pinf (b64_round p) || is_ninf (b64_round p)). }
  split; [congruence |].
  unfold row_mean, mean_cols, MARK_CATEGORIES. cbn -[astype_float nanmean].
  rewrite Hp, Hconv, Hq, Ha, Hr, Hrd, Hw, Hrp. done.
Qed.

Lemma row_mean_blank (row : gmap string value) :
  (∀ c, c ∈ mean_cols → row !! c = None) → row_mean row = Ret None.
Proof.
  intros Hrow. unfold row_mean.
  assert (E : mapM (λ c, astype_float (row !! c)) mean_cols
              = Ret ((λ _, None) <$> mean_cols)).
  { revert Hrow. generalize mean_cols. intros l. induction l as [|c l IH]; intros Hl; [done |].
    cbn. rewrite (Hl c) by by left. cbn.
    rewrite IH; [done |]. intros c' Hc'. apply Hl. by right. }
  rewrite E. done.
Qed.

Lemma Presentation_not_category : "Presentation" ∉ MARK_CATEGORIES.
Proof. apply (bool_decide_unpack _). by vm_compute. Qed.

Lemma Contribution_not_category : "Contribution" ∉ MARK_CATEGORIES.
Proof. apply (bool_decide_unpack _). by vm_compute. Qed.

Lemma is_category c : bool_decide (c ∈ MARK_CATEGORIES) = true → c ∈ MARK_CATEGORIES.
Proof. apply bool_decide_eq_true. Qed.

Lemma project_step_marks fs allow cl name p cl' pm member :
  project_step fs allow cl name p = Ret cl' →
  get_proj_marks (fs name) = Ret (Some pm) →
  member ∈ (members p).*1 →
  valid_marks pm = true
  ∧ ∃ row, rows cl' !! member = Some row
      ∧ row !! "Presentation" = Some (VNum (presentation p))
      ∧ ∀ c q, c ∈ MARK_CATEGORIES → pm !! c = Some q → row !! c = Some (VFloat q).
Proof.
  unfold project_step. intros Hstep Hpm Hin. rewrite Hpm in Hstep. simpl in Hstep.
  destruct (valid_marks pm) eqn:Hv; simpl in Hstep; [| done].
  injection Hstep as <-. split; [done |].
  pose proof (proj1 (valid_marks_iff pm) Hv) as Hk.
  set (marks := (VFloat <$> pm) ∪ _).
  assert (Hpres : marks !! "Presentation" = Some (VNum (presentation p))).
  { unfold marks. rewrite lookup_union_r; [by rewrite lookup_insert_eq |].
    rewrite lookup_fmap. destruct (pm !! "Presentation") eqn:E; [| done].
    destruct Presentation_not_category. apply Hk. by eexists. }
  pose proof (write_members_cell marks (members p) cl member _ _ Hin Hpres) as Hcell.
  unfold df_cell in Hcell.
  destruct (rows (write_members marks (members p) cl) !! member) as [row|] eqn:Hrow;
    [| by specialize (Hcell ltac:(done))].
  exists row. split; [done |]. split; [by apply Hcell |].
  intros c q Hc Hq.
  assert (Hm : marks !! c = Some (VFloat q)).
  { unfold marks. apply lookup_union_Some_l. by rewrite lookup_fmap, Hq. }
  assert (Hne : c ≠ "Contribution").
  { intros ->. by destruct Contribution_not_category. }
  pose proof (write_members_cell marks (members p) cl member _ _ Hin Hm Hne) as Hcell'.
  unfold df_cell in Hcell'. by rewrite Hrow in Hcell'.
Qed.

Lemma get_marks_Ret cl fs cfg allow cl' :
  get_marks cl fs cfg allow = Ret cl' →
  ∃ cl1, process_projects fs allow (projects cfg) cl = Ret cl1
    ∧ astype_errors (rows cl1) = []
    ∧ cl' = {| columns := columns cl1 ∪ {[default "Project %" (marks_col cfg)]};
               rows := (λ row, set_cell (default "Project %" (marks_col cfg))
                                 (final_score (round_final cfg) row) row)
                         <$> rows cl1 |}.
Proof.
  unfold get_marks.
  destruct (process_projects fs allow (projects cfg) cl) as [cl1|e]; [| done].
  unfold mbind at 1, result_bind.
  destruct (bool_decide (list_to_set mean_cols ⊆ columns cl1)); [| done].
  destruct (astype_errors (rows cl1)) eqn:Herr; [| done].
  intros [= <-]. by exists cl1.
Qed.

(** The marks of a project reach the row labelled with the member string. *)
Lemma get_marks_member_row cl fs cfg allow cl' pre name p post pm member :
  get_marks cl fs cfg allow = Ret cl' →
  projects cfg = pre ++ (name, p) :: post →
  get_proj_marks (fs name) = Ret (Some pm) →
  member ∈ (members p).*1 →
  (∀ name' p', (name', p') ∈ post → member ∉ (members p').*1) →
  ∃ cl1 row,
    cl' = {| columns := columns cl1 ∪ {[default "Project %" (marks_col cfg)]};
             rows := (λ row, set_cell (default "Project %" (marks_col cfg))
                               (final_score (round_final cfg) row) row)
                       <$> rows cl1 |}
    ∧ process_projects fs allow (projects cfg) cl = Ret cl1
    ∧ astype_errors (rows cl1) = []
    ∧ rows cl1 !! member = Some row
    ∧ valid_marks pm = true
    ∧ row !! "Presentation" = Some (VNum (presentation p))
    ∧ ∀ c q, c ∈ MARK_CATEGORIES → pm !! c = Some q → row !! c = Some (VFloat q).
Proof.
  intros Hrun Hps Hpm Hin Hpost.
  apply get_marks_Ret in Hrun as (cl1 & Hproc & Herr & ->).
  pose proof Hproc as Hall.
  rewrite Hps, process_projects_app in Hproc.
  destruct (process_projects fs allow pre cl) as [cl0|e0]; simpl in Hproc; [| done].
  destruct (project_step fs allow cl0 name p) as [cl2|e2] eqn:Hstep; simpl in Hproc; [| done].
  destruct (project_step_marks _ _ _ _ _ _ _ _ Hstep Hpm Hin)
    as (Hv & row & Hrow & Hpres & Hcat).
  rewrite <- (process_projects_frame _ _ _ _ _ member Hproc Hpost) in Hrow.
  by exists cl1, row.
Qed.

Lemma valid_marks_six pm :
  valid_marks pm = true →
  ∃ q a r rd w rp,
    pm !! "Questions" = Some q ∧ pm !! "Analysis" = Some a ∧ pm !! "Results" = Some r
    ∧ pm !! "Readability" = Some rd ∧ pm !! "Writing" = Some w
    ∧ pm !! "Reproducibility" = Some rp.
Proof.
  intros Hv. pose proof (proj1 (valid_marks_iff pm) Hv) as Hk.
  assert (Hall : Forall (λ c, is_Some (pm !! c)) MARK_CATEGORIES).
  { apply Forall_forall. intros c Hc. by apply Hk. }
  unfold MARK_CATEGORIES in Hall.
  apply Forall_cons in Hall as [[q Hq] Hall].
  apply Forall_cons in Hall as [[a Ha] Hall].
  apply Forall_cons in Hall as [[r Hr] Hall].
  apply Forall_cons in Hall as [[rd Hrd] Hall].
  apply Forall_cons in Hall as [[w Hw] Hall].
  apply Forall_cons in Hall as [[rp Hrp] _].
  by exists q, a, r, rd, w, rp.
Qed.

(** ** Member strings and logins *)

Lemma login_cons c m :
  login (String c m) = if Ascii.eqb c "@" then EmptyString else String c (login m).
Proof.
  unfold login. simpl. destruct (Ascii.eqb c "@"); [done |].
  by destruct (str_partition "@" m).
Qed.

Lemma login_no_at m : contains_char "@" (login m) = false.
Proof.
  unfold contains_char. apply negb_false_iff.
  induction m as [|c m IH]; [done |].
  rewrite login_cons. destruct (Ascii.eqb c "@") eqn:Hc; [done |].
  simpl. by rewrite Hc, IH.
Qed.

Lemma login_ne m : contains_char "@" m = true → login m ≠ m.
Proof. intros Hm E. rewrite <- E, login_no_at in Hm. done. Qed.

Lemma login_id m : contains_char "@" m = false → login m = m.
Proof.
  unfold contains_char. intros Hm%negb_false_iff.
  induction m as [|c m IH]; [done |].
  simpl in Hm. apply andb_true_iff in Hm as [Hc Hm]. apply negb_true_iff in Hc.
  rewrite login_cons, Hc. by rewrite IH.
Qed.

(** C4 (as amended).  After a successful [get_marks]: for a member whose
    string is the roster label itself (no [@]) and whom no later project
    lists again, the final-score cell is the binary64 mean of the project's
    presentation score and its six category values: the seven floats added
    from left to right and divided by 7, every operation rounded, then
    rounded half to even to a whole number when [round_final] is set; and a
    roster row that came without mark cells and that no project lists, by
    member string or by login, has no final-score cell (NaN). *)
Theorem get_marks_final_score (class_list : DataFrame) (fs : string → list notebook)
    (cfg : config) (allow_missing : bool) (class_list' : DataFrame) :
  get_marks class_list fs cfg allow_missing = Ret class_list' →
  let proj_col := default "Project %" (marks_col cfg) in
  let rnd := if round_final cfg then round_half_even else id in
  (∀ pre name pconfig post proj_marks member,
     projects cfg = pre ++ (name, pconfig) :: post →
     get_proj_marks (fs name) = Ret (Some proj_marks) →
     member ∈ (members pconfig).*1 →
     contains_char "@" member = false →
     (∀ name' p', (name', p') ∈ post → member ∉ (members p').*1) →
     ∃ q a r rd w rp,
       proj_marks !! "Questions" = Some q ∧ proj_marks !! "Analysis" = Some a
       ∧ proj_marks !! "Results" = Some r ∧ proj_marks !! "Readability" = Some rd
       ∧ proj_marks !! "Writing" = Some w ∧ proj_marks !! "Reproducibility" = Some rp
       ∧ login member = member
       ∧ df_cell class_list' (login member) proj_col
         = VFloat <$> (rnd <$> (s1 ← fadd (b64_round (presentation pconfig)) q;
                                s2 ← fadd s1 a; s3 ← fadd s2 r; s4 ← fadd s3 rd;
                                s5 ← fadd s4 w; s6 ← fadd s5 rp; Some (fdiv s6 7))))
  ∧ (∀ i row, rows class_list !! i = Some row →
       (∀ c, c ∈ mean_cols → row !! c = None) →
       (∀ name p m, (name, p) ∈ projects cfg → m ∈ (members p).*1 → m ≠ i ∧ login m ≠ i) →
       df_cell class_list' i proj_col = None).
Proof.
  intros Hrun proj_col rnd. split.
  - intros pre name p post pm member Hps Hpm Hin Hat Hpost.
    destruct (get_marks_member_row _ _ _ _ _ _ _ _ _ _ _ Hrun Hps Hpm Hin Hpost)
      as (cl1 & row & -> & _ & Herr & Hrow & Hv & Hpres & Hcat).
    destruct (valid_marks_six pm Hv) as (q & a & r & rd & w & rp & Hq & Ha & Hr & Hrd & Hw & Hrp).
    exists q, a, r, rd, w, rp. rewrite (login_id member Hat).
    repeat (split; [done |]).
    fold proj_col. rewrite final_cell, Hrow. simpl. unfold final_score.
    destruct (astype_errors_nil (rows cl1) member row "Presentation" Herr Hrow) as [x0 Hx0];
      [by left |].
    rewrite Hpres in Hx0.
    destruct (row_mean_seven row (presentation p) q a r rd w rp x0 Hpres Hx0) as [_ ->];
      [apply Hcat; [apply is_category; by vm_compute | done] .. |].
    by rewrite sum_of_seven.
  - intros i row Hrow Hblank Hfree.
    apply get_marks_Ret in Hrun as (cl1 & Hproc & _ & ->). fold proj_col.
    assert (Hraw : ∀ name p, (name, p) ∈ projects cfg → i ∉ (members p).*1).
    { intros name p Hp Hi. by destruct (Hfree name p i Hp Hi) as [? _]. }
    rewrite <- (process_projects_frame _ _ _ _ _ i Hproc Hraw) in Hrow.
    rewrite final_cell, Hrow. simpl. unfold final_score.
    by rewrite (row_mean_blank row Hblank).
Qed.

Lemma get_marks_final_score_witness :
  let cfg := config_of [("A", project_of ["alice"] 8)] in
  let out := table_or roster0 (get_marks roster0 fs0 cfg false) in
  (∃ q a r rd w rp,
     fold_marks (drop 2 (splitlines six_marks_src)) !! "Questions" = Some q
     ∧ fold_marks (drop 2 (splitlines six_marks_src)) !! "Analysis" = Some a
     ∧ fold_marks (drop 2 (splitlines six_marks_src)) !! "Results" = Some r
     ∧ fold_marks (drop 2 (splitlines six_marks_src)) !! "Readability" = Some rd
     ∧ fold_marks (drop 2 (splitlines six_marks_src)) !! "Writing" = Some w
     ∧ fold_marks (drop 2 (splitlines six_marks_src)) !! "Reproducibility" = Some rp
     ∧ login "alice" = "alice"
     ∧ df_cell out (login "alice") "Project %"
       = VFloat <$> (id <$> (s1 ← fadd (b64_round 8) q;
                             s2 ← fadd s1 a; s3 ← fadd s2 r; s4 ← fadd s3 rd;
                             s5 ← fadd s4 w; s6 ← fadd s5 rp; Some (fdiv s6 7))))
  ∧ df_cell out "carol" "Project %" = None.
Proof.
  intros cfg out.
  assert (Hrun : get_marks roster0 fs0 cfg false = Ret out) by (vm_compute; reflexivity).
  clearbody out.
  destruct (get_marks_final_score roster0 fs0 cfg false out Hrun) as [Hmember Hfree].
  clear Hrun. split.
  - refine (Hmember [] "A" (project_of ["alice"] 8) []
              (fold_marks (drop 2 (splitlines six_marks_src))) "alice" eq_refl _ _ eq_refl _).
    + vm_compute. reflexivity.
    + left.
    + intros name' p' H. apply elem_of_nil in H. destruct H.
  - refine (Hfree "carol" {[ "name" := VStr "Carol" ]} _ _ _).
    + vm_compute. reflexivity.
    + intros c Hc. apply lookup_singleton_ne. intros <-.
      revert Hc. apply (bool_decide_unpack _). vm_compute. exact I.
    + intros name p m H Hm. apply elem_of_cons in H as [H | H].
      * injection H as -> ->. simpl in Hm. apply list_elem_of_singleton in Hm as ->.
        split; intros E; vm_compute in E; discriminate E.
      * apply elem_of_nil in H. destruct H.
Defined.

(** C4, the claim as worded, fails: with presentation 4.2 and the marks 2.8,
    9.7, 5.6, 6.3, 7.0, 2.9 the final score is 5.499999999999999, which is
    neither the arithmetic mean of the seven fields as floats nor the mean
    5.5 of the seven decimal numbers. *)
Lemma final_score_not_exact_mean :
  let cfg := config_of [("E", project_of ["alice"] (21 # 5))] in
  let out := table_or roster0 (get_marks roster0 fs1 cfg false) in
  let x := (6192449487634431 # 1125899906842624)%Q in
  df_cell out "alice" "Project %" = Some (VFloat x)
  ∧ length (row_fields out "alice") = 7%nat
  ∧ ¬ (x == exact_mean (row_fields out "alice"))%Q
  ∧ ¬ (x == exact_mean [21 # 5; 14 # 5; 97 # 10; 28 # 5; 63 # 10; 7; 29 # 10])%Q.
Proof.
  intros cfg out x.
  assert (H1 : df_cell out "alice" "Project %" = Some (VFloat x)) by (vm_compute; reflexivity).
  assert (H2 : row_fields out "alice"
               = [(4728779608739021 # 1125899906842624); (3152519739159347 # 1125899906842624);
                  (2730307274093363 # 281474976710656); (3152519739159347 # 562949953421312);
                  (7093169413108531 # 1125899906842624); 7;
                  (6530219459687219 # 2251799813685248)]%Q) by (vm_compute; reflexivity).
  clearbody out. split; [exact H1 |]. rewrite H2. clear H1 H2.
  split; [reflexivity |].
  split; intros H; vm_compute in H; discriminate H.
Qed.

(** The example of the specification: presentation 8 and marks 9, 7, 8, 9, 8, 7
    give the final score 8. *)
Example final_score_example :
  df_cell (table_or roster0 (get_marks roster0 fs0 (config_of [("A", project_of ["alice"] 8)]) false))
          "alice" "Project %" = Some (VFloat 8).
Proof. vm_compute. reflexivity. Qed.

(** C10.  For a member string that contains [@]: the login [check_config]
    looks up is a different text, and it is that login, not the member
    string, which [member_logins] holds.  After a successful [get_marks] in
    which the member's project has marks (no later project listing the member
    again, and no project listing the login as a member string), the row
    labelled with the whole member string holds the project's presentation
    score and category values, while every cell of the login's row, the
    final-score column apart, is what it was in the roster. *)
Theorem member_row_mismatch (member : string) :
  contains_char "@" member = true →
  login member ≠ member
  ∧ (∀ pconfig, member ∈ (members pconfig).*1 →
       login member ∈ member_logins pconfig ∧ member ∉ member_logins pconfig)
  ∧ (∀ class_list fs cfg allow_missing class_list' pre name pconfig post proj_marks,
       get_marks class_list fs cfg allow_missing = Ret class_list' →
       projects cfg = pre ++ (name, pconfig) :: post →
       get_proj_marks (fs name) = Ret (Some proj_marks) →
       member ∈ (members pconfig).*1 →
       (∀ name' p', (name', p') ∈ post → member ∉ (members p').*1) →
       (∀ name' p', (name', p') ∈ projects cfg → login member ∉ (members p').*1) →
       let proj_col := default "Project %" (marks_col cfg) in
       ("Presentation" ≠ proj_col →
        df_cell class_list' member "Presentation" = Some (VNum (presentation pconfig)))
       ∧ (∀ c q, c ∈ MARK_CATEGORIES → c ≠ proj_col → proj_marks !! c = Some q →
            df_cell class_list' member c = Some (VFloat q))
       ∧ (∀ c, c ≠ proj_col →
            df_cell class_list' (login member) c = df_cell class_list (login member) c)).
Proof.
  intros Hat. pose proof (login_ne member Hat) as Hne.
  split; [done |]. split.
  - intros pconfig Hin. unfold member_logins. rewrite !elem_of_list_to_set. split.
    + apply list_elem_of_fmap. by exists member.
    + intros (m & E & _)%list_elem_of_fmap.
      rewrite E, login_no_at in Hat. done.
  - intros cl fs cfg allow cl' pre name p post pm Hrun Hps Hpm Hin Hpost Hlogin proj_col.
    destruct (get_marks_member_row _ _ _ _ _ _ _ _ _ _ _ Hrun Hps Hpm Hin Hpost)
      as (cl1 & row & -> & Hproc & _ & Hrow & _ & Hpres & Hcat).
    split; [| split].
    + intros Hc. rewrite other_cell by done. by rewrite Hrow.
    + intros c q Hc Hcne Hq. rewrite other_cell by done. rewrite Hrow. by apply Hcat.
    + intros c Hc. rewrite other_cell by done. unfold df_cell.
      by rewrite (process_projects_frame _ _ _ _ _ _ Hproc Hlogin).
Qed.

Lemma member_row_mismatch_witness :
  let cfg := config_of [("A", project_of ["alice@github"] 8)] in
  let out := table_or roster0 (get_marks roster0 fs0 cfg false) in
  login "alice@github" ≠ "alice@github"
  ∧ df_cell out "alice@github" "Presentation" = Some (VNum 8)
  ∧ df_cell out "alice@github" "Questions" = Some (VFloat 9)
  ∧ df_cell out (login "alice@github") "Presentation"
    = df_cell roster0 (login "alice@github") "Presentation".
Proof.
  intros cfg out.
  assert (Hrun : get_marks roster0 fs0 cfg false = Ret out) by (vm_compute; reflexivity).
  clearbody out.
  destruct (member_row_mismatch "alice@github" eq_refl) as (Hne & _ & Hrows).
  split; [exact Hne |].
  assert (Hpm : get_proj_marks (fs0 "A")
                = Ret (Some (fold_marks (drop 2 (splitlines six_marks_src)))))
    by (vm_compute; reflexivity).
  assert (Hin : "alice@github" ∈ (members (project_of ["alice@github"] 8)).*1) by left.
  destruct (Hrows roster0 fs0 cfg false out [] "A" (project_of ["alice@github"] 8) []
              (fold_marks (drop 2 (splitlines six_marks_src))) Hrun eq_refl Hpm Hin)
    as (Hpres & Hcat & Hlogin).
  - intros name' p' H. apply elem_of_nil in H. destruct H.
  - intros name' p' H. apply elem_of_cons in H as [H | H].
    + injection H as -> ->. apply (bool_decide_unpack _). vm_compute. exact I.
    + apply elem_of_nil in H. destruct H.
  - clear Hrun Hpm. split; [| split].
    + apply Hpres. intros E. vm_compute in E. discriminate E.
    + apply (Hcat "Questions" 9%Q).
      * apply is_category. vm_compute. reflexivity.
      * intros E. vm_compute in E. discriminate E.
      * vm_compute. reflexivity.
    + apply Hlogin. intros E. vm_compute in E. discriminate E.
Defined.

(** ** The membership check *)

Lemma nonempty_size_test (X : gset string) x : x ∈ X → negb (size X =? 0)%nat = true.
Proof.
  intros Hx. apply negb_true_iff, Nat.eqb_neq. intros Hsz.
  apply size_empty_iff in Hsz. set_solver.
Qed.

Lemma check_projects_unknown known all ps name p m :
  (name, p) ∈ ps → m ∈ (members p).*1 → login m ∉ known →
  ∃ msg, check_projects known all ps = Raise (ValueError msg).
Proof.
  intros Hin Hm Hunk. revert all.
  induction ps as [|[name' p'] ps IH]; intros all; [by apply elem_of_nil in Hin |].
  simpl. destruct (negb (size (member_logins p' ∖ known) =? 0)%nat) eqn:Hu; [by eexists |].
  destruct (negb (size (all ∩ member_logins p') =? 0)%nat) eqn:Ho; [by eexists |].
  apply elem_of_cons in Hin as [[= <- <-] | Hin]; [| by apply IH].
  rewrite (nonempty_size_test _ (login m)) in Hu; [done |].
  apply elem_of_difference. split; [| done].
  unfold member_logins. rewrite elem_of_list_to_set. apply list_elem_of_fmap. by exists m.
Qed.

Lemma check_projects_seen known all ps name p l :
  l ∈ all → (name, p) ∈ ps → l ∈ member_logins p →
  ∃ msg, check_projects known all ps = Raise (ValueError msg).
Proof.
  intros Hall Hin Hl. revert all Hall.
  induction ps as [|[name' p'] ps IH]; intros all Hall; [by apply elem_of_nil in Hin |].
  simpl. destruct (negb (size (member_logins p' ∖ known) =? 0)%nat) eqn:Hu; [by eexists |].
  destruct (negb (size (all ∩ member_logins p') =? 0)%nat) eqn:Ho; [by eexists |].
  apply elem_of_cons in Hin as [[= <- <-] | Hin].
  - rewrite (nonempty_size_test _ l) in Ho; [done |]. by apply elem_of_intersection.
  - apply IH; [done |]. apply elem_of_union. by left.
Qed.

Lemma check_projects_overlap known all pre name1 p1 mid name2 p2 post m1 m2 :
  m1 ∈ (members p1).*1 → m2 ∈ (members p2).*1 → login m1 = login m2 →
  ∃ msg, check_projects known all (pre ++ (name1, p1) :: mid ++ (name2, p2) :: post)
         = Raise (ValueError msg).
Proof.
  intros H1 H2 E. revert all.
  induction pre as [|[name' p'] pre IH]; intros all; simpl.
  - destruct (negb (size (member_logins p1 ∖ known) =? 0)%nat) eqn:Hu; [by eexists |].
    destruct (negb (size (all ∩ member_logins p1) =? 0)%nat) eqn:Ho; [by eexists |].
    apply (check_projects_seen _ _ _ name2 p2 (login m1)).
    + apply elem_of_union. right. unfold member_logins.
      rewrite elem_of_list_to_set. apply list_elem_of_fmap. by exists m1.
    + apply elem_of_app. right. by left.
    + unfold member_logins. rewrite elem_of_list_to_set.
      apply list_elem_of_fmap. by exists m2.
  - destruct (negb (size (member_logins p' ∖ known) =? 0)%nat) eqn:Hu; [by eexists |].
    destruct (negb (size (all ∩ member_logins p') =? 0)%nat) eqn:Ho; [by eexists |].
    apply IH.
Qed.

(** C2 (as amended).  When a project lists a member whose login is not in the
    roster, or two projects list members with the same login, the membership
    check [check_config] raises [ValueError]. *)
Theorem check_config_rejects (class_list : DataFrame) (cfg : config) :
  (∃ name pconfig m,
      (name, pconfig) ∈ projects cfg ∧ m ∈ (members pconfig).*1
      ∧ login m ∉ dom (rows class_list))
  ∨ (∃ pre name1 p1 mid name2 p2 post m1 m2,
      projects cfg = pre ++ (name1, p1) :: mid ++ (name2, p2) :: post
      ∧ m1 ∈ (members p1).*1 ∧ m2 ∈ (members p2).*1 ∧ login m1 = login m2) →
  ∃ msg, check_config class_list cfg = Raise (ValueError msg).
Proof.
  unfold check_config.
  intros [(name & p & m & Hin & Hm & Hunk)
         | (pre & n1 & p1 & mid & n2 & p2 & post & m1 & m2 & -> & H1 & H2 & E)].
  - destruct (check_projects_unknown _ ∅ _ _ _ _ Hin Hm Hunk) as [msg ->]. by exists msg.
  - destruct (check_projects_overlap (dom (rows class_list)) ∅ pre n1 p1 mid n2 p2 post
                m1 m2 H1 H2 E) as [msg ->].
    by exists msg.
Qed.

Lemma check_config_rejects_witness :
  (∃ msg, check_config roster0 (config_of [("A", project_of ["bob"] 8)])
          = Raise (ValueError msg))
  ∧ (∃ msg, check_config roster0
              (config_of [("A", project_of ["alice"; "carol"] 8);
                          ("B", project_of ["alice@github"] 6)])
            = Raise (ValueError msg)).
Proof.
  split.
  - apply check_config_rejects. left.
    exists "A", (project_of ["bob"] 8), "bob". split; [left | split; [left |]].
    apply (bool_decide_unpack _). vm_compute. exact I.
  - apply check_config_rejects. right.
    exists [], "A", (project_of ["alice"; "carol"] 8), [], "B",
           (project_of ["alice@github"] 6), [], "alice", "alice@github".
    split; [reflexivity | split; [left | split; [left | reflexivity]]].
Defined.

(** C2, the claim as worded, fails: [get_marks] does not check membership.
    With a member missing from the roster, and with a student in two projects,
    it returns a table, in which the unknown member got a row with marks and
    the shared student the marks of the later project. *)
Lemma get_marks_no_membership_check :
  ("bob" ∉ dom (rows roster0))
  ∧ (cl ← get_marks roster0 fs0 (config_of [("A", project_of ["bob"] 8)]) false;
     Ret (df_cell cl "bob" "Presentation"))
    = Ret (Some (VNum 8))
  ∧ (cl ← get_marks roster0 fs0
             (config_of [("A", project_of ["alice"] 8); ("D", project_of ["alice"] 6)]) false;
     Ret (df_cell cl "alice" "Presentation"))
    = Ret (Some (VNum 6)).
Proof.
  split; [| split].
  - apply (bool_decide_unpack _). vm_compute. exact I.
  - vm_compute. reflexivity.
  - vm_compute. reflexivity.
Qed.

(** C9 (the code departs from the claim).  With the gradebook path set and
    the aggregation through: when [export] has no [col_map] the export raises
    [TypeError], and when it has a [col_map] but no [merge_col] it raises
    [KeyError]; neither is the configuration error the sibling check on
    [canvas_export_path] raises. *)
Theorem export_marks_missing_keys (to_minimal_df : string → DataFrame)
    (merge : DataFrame → DataFrame → string → result DataFrame) :
  let ps := [("A", project_of ["alice"] 8)] in
  export_marks to_minimal_df merge roster0 fs0 (export_config_of ps None) false
  = Raise TypeError
  ∧ export_marks to_minimal_df merge roster0 fs0
      (export_config_of ps (Some {| merge_col := Some "name"; col_map := None;
                                    fname := None |})) false
    = Raise TypeError
  ∧ export_marks to_minimal_df merge roster0 fs0
      (export_config_of ps (Some {| merge_col := None;
                                    col_map := Some [("Questions", "Q1 Score")];
                                    fname := None |})) false
    = Raise KeyError
  ∧ export_marks to_minimal_df merge roster0 fs0 (config_of ps) false
    = Raise (RuntimeError ("Set " +:+ String dquote "canvas_export_path"
                           +:+ String dquote " in config")).
Proof. intros ps. repeat split; vm_compute; reflexivity. Qed.

(** * Further properties *)

(** ** The parser and the locator *)








(** ** Tokens and [float] *)









(** ** The membership check accepts what it should *)






(** ** The project column *)










(** ** [get_member2project] *)




(** ** The command line *)


(** ** Pulling the repositories *)









(** ** More on the aggregation *)













